(** * simple_counter.py: a counter fixture for sub-process tests

    A shallow embedding of [samples/SubProcessDemo/simple_counter.py] and the
    properties of its output.  The script is

<<
     5  import time
     7  counter = 0
     8  while counter < 20:
     9      print(f"Iteration {counter}", flush=True)
    10      counter += 1
    11      time.sleep(1)
    13  print("Counter finished.")
>>

    It is modelled as a small-step machine whose program points are the line
    numbers of the script.  One step executes one statement (or one
    evaluation of the loop guard), so that every prefix of an execution, and
    with it a run that a supervising process kills half-way, is a state of
    the machine. *)

From Stdlib Require Import ZArith String Ascii List Bool Lia.
From Stdlib Require Import DecimalString DecimalZ DecimalFacts.
Import ListNotations.
Local Open Scope Z_scope.

(** ** The Python values and builtins the script uses *)

(** The exceptions the statements of the script can raise. *)
Inductive exn : Type :=
| NameError (name : string)
| ValueError (msg : string).

Inductive result (A : Type) : Type :=
| Ok (a : A)
| Raise (e : exn).
Arguments Ok {A} a.
Arguments Raise {A} e.

Definition bind {A B : Type} (r : result A) (k : A -> result B) : result B :=
  match r with
  | Ok a => k a
  | Raise e => Raise e
  end.

Notation "x <- r ;; k" := (bind r (fun x => k))
  (at level 61, r at next level, right associativity).

(** [str(n)] for a Python [int]: the decimal numeral, with a leading [-] for
    a negative number. *)
Definition py_str (n : Z) : string := NilZero.string_of_int (Z.to_int n).

(** The f-string [f"Iteration {counter}"]. *)
Definition iteration_line (counter : Z) : string :=
  ("Iteration " ++ py_str counter)%string.

Definition finished_line : string := "Counter finished.".

(** What the process does to the outside: [print(line, flush=...)] writes
    [line] and a newline to standard output, [time.sleep(secs)] blocks. *)
Inductive event : Type :=
| Print (line : string) (flush : bool)
| Sleep (secs : Z).

(** [time.sleep] refuses a negative length. *)
Definition time_sleep (secs : Z) : result event :=
  if secs <? 0 then Raise (ValueError "sleep length must be non-negative")
  else Ok (Sleep secs).

(** ** The machine *)

(** What the process could read and never does. *)
Record world : Type := mkWorld {
  argv : list string;
  environ : list (string * string);
  stdin : string
}.

(** Program points: the lines of the script that execute, and [Lend], the
    end of the module, where the interpreter exits. *)
Inductive label : Type := L7 | L8 | L9 | L10 | L11 | L13 | Lend.

Record state : Type := mkState {
  pc : label;
  counter : option Z;          (* [None]: the name is not bound yet *)
  out : list event;            (* oldest event first *)
  exit_code : option Z;        (* [Some c] once the process has exited *)
  env : world
}.

Definition set_pc (l : label) (s : state) : state :=
  mkState l (counter s) (out s) (exit_code s) (env s).

Definition set_counter (c : Z) (s : state) : state :=
  mkState (pc s) (Some c) (out s) (exit_code s) (env s).

Definition emit (e : event) (s : state) : state :=
  mkState (pc s) (counter s) (out s ++ [e]) (exit_code s) (env s).

Definition set_exit (c : Z) (s : state) : state :=
  mkState (pc s) (counter s) (out s) (Some c) (env s).

Definition load_counter (s : state) : result Z :=
  match counter s with
  | Some c => Ok c
  | None => Raise (NameError "counter")
  end.

(** One statement of the script. *)
Definition step (s : state) : result state :=
  match pc s with
  | L7 => Ok (set_pc L8 (set_counter 0 s))
  | L8 =>
      c <- load_counter s ;;
      Ok (set_pc (if c <? 20 then L9 else L13) s)
  | L9 =>
      c <- load_counter s ;;
      Ok (set_pc L10 (emit (Print (iteration_line c) true) s))
  | L10 =>
      c <- load_counter s ;;
      Ok (set_pc L11 (set_counter (c + 1) s))
  | L11 =>
      e <- time_sleep 1 ;;
      Ok (set_pc L8 (emit e s))
  | L13 => Ok (set_pc Lend (emit (Print finished_line false) s))
  | Lend => Ok (set_exit 0 s)
  end.

Fixpoint run (n : nat) (s : state) : result state :=
  match n with
  | O => Ok s
  | S n' => s' <- step s ;; run n' s'
  end.

(** The process as the interpreter starts it: nothing bound, nothing
    written. *)
Definition init (w : world) : state := mkState L7 None [] None w.

Definition world0 : world := mkWorld ["simple_counter.py"%string] [] EmptyString.

(** ** Reading a trace *)

(** The lines written to standard output, in order. *)
Fixpoint printed (t : list event) : list string :=
  match t with
  | [] => []
  | Print line _ :: t' => line :: printed t'
  | Sleep _ :: t' => printed t'
  end.

(** The number of calls of [time.sleep]. *)
Fixpoint sleep_calls (t : list event) : nat :=
  match t with
  | [] => O
  | Print _ _ :: t' => sleep_calls t'
  | Sleep _ :: t' => S (sleep_calls t')
  end.

Definition newline : string := String (ascii_of_nat 10) EmptyString.

(** The text that the printed lines make on the stream. *)
Definition stdout_text (t : list event) : string :=
  String.concat EmptyString (map (fun line => (line ++ newline)%string) (printed t)).

(** [k] complete iterations of the loop body, started with [counter = 0]. *)
Definition tick (i : nat) : list event :=
  [Print (iteration_line (Z.of_nat i)) true; Sleep 1].

Definition ticks (k : nat) : list event := flat_map tick (seq 0 k).

Definition iteration_lines (k : nat) : list string :=
  map (fun i => iteration_line (Z.of_nat i)) (seq 0 k).

(** The states of an execution: [trajectory n s] lists the states after
    0, 1, ..., n steps from [s] (it stops at an exception). *)
Fixpoint trajectory (n : nat) (s : state) : list state :=
  s :: match n with
       | O => []
       | S n' => match step s with
                 | Ok s' => trajectory n' s'
                 | Raise _ => []
                 end
       end.

Definition at_label (l : label) (s : state) : bool :=
  match pc s, l with
  | L7, L7 | L8, L8 | L9, L9 | L10, L10 | L11, L11 | L13, L13 | Lend, Lend => true
  | _, _ => false
  end.

(** How often the first [n] steps entered the loop body (line 9). *)
Definition iterations (n : nat) (s : state) : nat :=
  length (filter (at_label L9) (trajectory n s)).

(** ** Standard output as the parent process sees it *)

(** Python's text stream keeps what [print] writes in a buffer.  The buffer
    is handed to the operating system when [flush=True] is passed, when the
    stream is line buffered (a terminal) and a newline was written, when the
    stream writes through (the interpreter was started with [-u] or with
    [PYTHONUNBUFFERED] set: the text layer keeps nothing and the layer below
    it has no buffer), and when the interpreter exits.  (It is also handed
    over when it is full: the whole output of this script is far smaller
    than a buffer.) *)
Record stream : Type := mkStream {
  delivered : list string;     (* lines the parent can read *)
  buffered : list string       (* lines still inside the process *)
}.

(** How the interpreter has set up [sys.stdout]: both flags are false for a
    pipe or a file (block buffering, the default of a child process),
    [line_buffering] is true for a terminal, [write_through] is true under
    [-u] and [PYTHONUNBUFFERED]. *)
Record buffering : Type := mkBuffering {
  line_buffering : bool;
  write_through : bool
}.

Definition block_buffered : buffering := mkBuffering false false.
Definition terminal : buffering := mkBuffering true false.
Definition unbuffered : buffering := mkBuffering false true.

Definition write (b : buffering) (o : stream) (e : event) : stream :=
  match e with
  | Print line flush =>
      if flush || line_buffering b || write_through b
      then mkStream (delivered o ++ buffered o ++ [line]) []
      else mkStream (delivered o) (buffered o ++ [line])
  | Sleep _ => o
  end.

Definition at_exit (o : stream) : stream :=
  mkStream (delivered o ++ buffered o) [].

Definition stdout_of (b : buffering) (s : state) : stream :=
  let o := fold_left (write b) (out s) (mkStream [] []) in
  match exit_code s with
  | Some _ => at_exit o
  | None => o
  end.

(** ** The shape of the reachable states *)

Definition Inv (s : state) : Prop :=
  match pc s with
  | L7 => counter s = None /\ out s = [] /\ exit_code s = None
  | L8 => exists k, (k <= 20)%nat /\ counter s = Some (Z.of_nat k) /\
                    out s = ticks k /\ exit_code s = None
  | L9 => exists k, (k < 20)%nat /\ counter s = Some (Z.of_nat k) /\
                    out s = ticks k /\ exit_code s = None
  | L10 => exists k, (k < 20)%nat /\ counter s = Some (Z.of_nat k) /\
                     out s = ticks k ++ [Print (iteration_line (Z.of_nat k)) true] /\
                     exit_code s = None
  | L11 => exists k, (k < 20)%nat /\ counter s = Some (Z.of_nat k + 1) /\
                     out s = ticks k ++ [Print (iteration_line (Z.of_nat k)) true] /\
                     exit_code s = None
  | L13 => counter s = Some 20 /\ out s = ticks 20 /\ exit_code s = None
  | Lend => counter s = Some 20 /\
            out s = ticks 20 ++ [Print finished_line false] /\
            (exit_code s = None \/ exit_code s = Some 0)
  end.

(** The state in which the process has exited. *)
Definition final (w : world) : state :=
  mkState Lend (Some 20) (ticks 20 ++ [Print finished_line false]) (Some 0) w.

(** What an observer of the process can tell about a state: everything but
    the world it was started in. *)
Definition observable (s : state) : label * option Z * list event * option Z :=
  (pc s, counter s, out s, exit_code s).

Definition with_world (w : world) (s : state) : state :=
  mkState (pc s) (counter s) (out s) (exit_code s) w.

Definition result_map {A B : Type} (f : A -> B) (r : result A) : result B :=
  match r with
  | Ok a => Ok (f a)
  | Raise e => Raise e
  end.

(** The values of [counter] at the evaluations of the loop guard during the
    first [n] steps. *)
Definition guard_values (n : nat) (s : state) : list (option Z) :=
  map counter (filter (at_label L8) (trajectory n s)).

(** The process has not exited after [n] steps (and has not raised). *)
Definition still_running (w : world) (n : nat) : bool :=
  match run n (init w) with
  | Ok s => match exit_code s with None => true | Some _ => false end
  | Raise _ => false
  end.

Definition at_most_20_iterations (w : world) (n : nat) : bool :=
  (iterations n (init w) <=? 20)%nat.

(** The events of a process that only writes to its standard output and
    sleeps for a length that [time.sleep] accepts. *)
Definition harmless (e : event) : Prop :=
  match e with
  | Print _ _ => True
  | Sleep secs => 0 <= secs
  end.

(** Every printed line was flushed by the call that printed it. *)
Definition every_print_flushed (t : list event) : Prop :=
  forall line flush, In (Print line flush) t -> flush = true.

(** ** More readings of a trace *)

(** The seconds of sleep a trace has asked for. *)
Fixpoint slept (t : list event) : Z :=
  match t with
  | [] => 0
  | Print _ _ :: t' => slept t'
  | Sleep secs :: t' => secs + slept t'
  end.

(** Prints and sleeps take turns; [print_next] tells whose turn it is. *)
Fixpoint alternates (print_next : bool) (t : list event) : bool :=
  match t with
  | [] => true
  | Print _ _ :: t' => print_next && alternates false t'
  | Sleep _ :: t' => negb print_next && alternates true t'
  end.

(** How often a character occurs in a text. *)
Fixpoint occurrences (c : ascii) (s : string) : nat :=
  match s with
  | EmptyString => O
  | String a s' => ((if Ascii.eqb a c then 1 else 0) + occurrences c s')%nat
  end.

Definition newline_char : ascii := ascii_of_nat 10.

(** [k] iterations of the loop body, started with [counter = c]. *)
Definition ticks_from (c : Z) (k : nat) : list event :=
  flat_map (fun i => [Print (iteration_line (c + Z.of_nat i)) true; Sleep 1])
           (seq 0 k).

(** The state of the loop: at the guard, with the counter bound. *)
Definition at_guard (c : Z) (o : list event) (w : world) : state :=
  mkState L8 (Some c) o None w.

(** ** Facts about the builtins *)

Example run_3 :
  run 3 (init world0) =
  Ok (mkState L10 (Some 0) [Print "Iteration 0" true] None world0).
Proof. reflexivity. Qed.

Example run_84 : run 84 (init world0) = Ok (final world0).
Proof. reflexivity. Qed.

Lemma to_int_proper (z : Z) :
  Z.to_int z <> Decimal.Pos Decimal.Nil /\ Z.to_int z <> Decimal.Neg Decimal.Nil.
Proof.
  destruct z as [|p|p]; simpl; split; try discriminate;
    intros [= H]; exact (DecimalPos.Unsigned.to_uint_nonnil p H).
Qed.

(** Reading a numeral back gives the number it was made from. *)
Lemma py_str_parse (z : Z) :
  NilZero.int_of_string (py_str z) = Some (Z.to_int z).
Proof.
  unfold py_str. destruct (to_int_proper z) as [Hp Hn].
  now apply NilZero.isi.
Qed.

Lemma py_str_inj (a b : Z) : py_str a = py_str b -> a = b.
Proof.
  intros H. apply DecimalZ.to_int_inj.
  assert (E : Some (Z.to_int a) = Some (Z.to_int b))
    by (rewrite <- !py_str_parse, H; reflexivity).
  now injection E.
Qed.

Lemma iteration_line_inj (a b : Z) : iteration_line a = iteration_line b -> a = b.
Proof.
  unfold iteration_line. simpl. intros H.
  apply py_str_inj. now repeat injection H as H.
Qed.

Lemma iteration_line_not_finished (a : Z) : iteration_line a <> finished_line.
Proof. unfold iteration_line, finished_line. simpl. discriminate. Qed.

Lemma time_sleep_nonneg (secs : Z) : 0 <= secs -> time_sleep secs = Ok (Sleep secs).
Proof.
  intros H. unfold time_sleep.
  destruct (Z.ltb_spec secs 0); [lia | reflexivity].
Qed.

(** ** Facts about traces *)

Lemma printed_app (t u : list event) : printed (t ++ u) = printed t ++ printed u.
Proof.
  induction t as [|[line f|secs] t IH]; simpl; [reflexivity | now rewrite IH | exact IH].
Qed.

Lemma sleep_calls_app (t u : list event) :
  sleep_calls (t ++ u) = (sleep_calls t + sleep_calls u)%nat.
Proof.
  induction t as [|[line f|secs] t IH]; simpl; [reflexivity | exact IH | now rewrite IH].
Qed.

Lemma ticks_S (k : nat) : ticks (S k) = ticks k ++ tick k.
Proof.
  unfold ticks. rewrite seq_S, flat_map_app. reflexivity.
Qed.

Lemma iteration_lines_S (k : nat) :
  iteration_lines (S k) = iteration_lines k ++ [iteration_line (Z.of_nat k)].
Proof. unfold iteration_lines. now rewrite seq_S, map_app. Qed.

Lemma printed_ticks (k : nat) : printed (ticks k) = iteration_lines k.
Proof.
  induction k as [|k IH]; [reflexivity|].
  now rewrite ticks_S, iteration_lines_S, printed_app, IH.
Qed.

Lemma sleep_calls_ticks (k : nat) : sleep_calls (ticks k) = k.
Proof.
  induction k as [|k IH]; [reflexivity|].
  rewrite ticks_S, sleep_calls_app, IH. simpl. lia.
Qed.

Lemma length_iteration_lines (k : nat) : length (iteration_lines k) = k.
Proof. unfold iteration_lines. now rewrite length_map, length_seq. Qed.

Lemma in_iteration_lines (k : nat) (line : string) :
  In line (iteration_lines k) <->
  exists i, (i < k)%nat /\ line = iteration_line (Z.of_nat i).
Proof.
  unfold iteration_lines. rewrite in_map_iff. split.
  - intros (i & <- & Hi). apply in_seq in Hi. exists i. split; [lia | reflexivity].
  - intros (i & Hi & ->). exists i. split; [reflexivity | apply in_seq; lia].
Qed.

(** ** Facts about the machine *)

Lemma run_add (n m : nat) (s : state) :
  run (n + m) s = (s' <- run n s ;; run m s').
Proof.
  revert s. induction n as [|n IH]; intros s; simpl; [reflexivity|].
  destruct (step s) as [s'|e]; simpl; [apply IH | reflexivity].
Qed.

Lemma run_S_last (n : nat) (s : state) :
  run (S n) s = (s' <- run n s ;; step s').
Proof.
  replace (S n) with (n + 1)%nat by lia. rewrite run_add.
  destruct (run n s) as [s'|e]; simpl; [|reflexivity].
  now destruct (step s').
Qed.

Lemma Inv_init (w : world) : Inv (init w).
Proof. now cbv. Qed.

Ltac shape := repeat split; try reflexivity; try lia; auto.

(** A reachable state never raises, and its successor is reachable. *)
Lemma Inv_step (s : state) : Inv s -> exists s', step s = Ok s' /\ Inv s'.
Proof.
  destruct s as [l c o x w]. unfold Inv, step, load_counter. simpl.
  destruct l; simpl.
  - intros (-> & -> & ->). eexists; split; [reflexivity|]. simpl.
    exists O. shape.
  - intros (k & Hk & -> & -> & ->). simpl.
    eexists; split; [reflexivity|].
    destruct (Z.ltb_spec (Z.of_nat k) 20); simpl.
    + exists k. shape.
    + assert (k = 20%nat) as -> by lia. shape.
  - intros (k & Hk & -> & -> & ->). simpl.
    eexists; split; [reflexivity|]. simpl. exists k. shape.
  - intros (k & Hk & -> & -> & ->). simpl.
    eexists; split; [reflexivity|]. simpl. exists k. shape.
  - intros (k & Hk & -> & -> & ->). simpl.
    eexists; split; [reflexivity|]. simpl. exists (S k).
    shape; [f_equal; lia |].
    rewrite ticks_S, <- List.app_assoc. reflexivity.
  - intros (-> & -> & ->). eexists; split; [reflexivity|]. simpl. shape.
  - intros (-> & -> & Hx). eexists; split; [reflexivity|]. simpl. shape.
Qed.

Lemma Inv_run (w : world) (n : nat) : exists s, run n (init w) = Ok s /\ Inv s.
Proof.
  induction n as [|n (s & Hs & HI)].
  - exists (init w). split; [reflexivity | apply Inv_init].
  - destruct (Inv_step s HI) as (s' & Hs' & HI').
    exists s'. split; [|exact HI'].
    rewrite run_S_last, Hs. exact Hs'.
Qed.

Lemma Inv_reached (w : world) (n : nat) (s : state) :
  run n (init w) = Ok s -> Inv s.
Proof.
  intros H. destruct (Inv_run w n) as (s' & Hs' & HI).
  rewrite H in Hs'. now injection Hs' as ->.
Qed.

Lemma run_84_final (w : world) : run 84 (init w) = Ok (final w).
Proof. reflexivity. Qed.

(** Once the process has exited nothing happens any more. *)
Lemma run_final (w : world) (m : nat) : run m (final w) = Ok (final w).
Proof. induction m as [|m IH]; [reflexivity | exact IH]. Qed.

Lemma run_from_84 (w : world) (n : nat) :
  (84 <= n)%nat -> run n (init w) = Ok (final w).
Proof.
  intros H. replace n with (84 + (n - 84))%nat by lia.
  rewrite run_add, run_84_final. apply run_final.
Qed.

(** A state that has exited is the final one, up to the world. *)
Lemma Inv_exited (s : state) :
  Inv s -> exit_code s <> None ->
  pc s = Lend /\ counter s = Some 20 /\
  out s = ticks 20 ++ [Print finished_line false] /\ exit_code s = Some 0.
Proof.
  unfold Inv. destruct (pc s).
  1, 6: intros (_ & _ & H) Hx; contradiction.
  1, 2, 3, 4: intros (k & _ & _ & _ & H) Hx; contradiction.
  intros (Hc & Ho & [Hx|Hx]) Hn; [contradiction | now repeat split].
Qed.

(** The lines a reachable state has printed: some first iteration lines, or
    all twenty of them and the final line. *)
Lemma Inv_printed (s : state) :
  Inv s ->
  (exists k, (k <= 20)%nat /\ printed (out s) = iteration_lines k /\
             exit_code s = None /\ pc s <> Lend) \/
  (printed (out s) = iteration_lines 20 ++ [finished_line] /\ pc s = Lend).
Proof.
  unfold Inv. destruct (pc s).
  - intros (_ & -> & Hx). left. exists O. shape. discriminate.
  - intros (k & Hk & _ & -> & Hx). left. exists k.
    rewrite printed_ticks. shape. discriminate.
  - intros (k & Hk & _ & -> & Hx). left. exists k.
    rewrite printed_ticks. shape. discriminate.
  - intros (k & Hk & _ & -> & Hx). left. exists (S k).
    rewrite printed_app, printed_ticks, iteration_lines_S. shape. discriminate.
  - intros (k & Hk & _ & -> & Hx). left. exists (S k).
    rewrite printed_app, printed_ticks, iteration_lines_S. shape. discriminate.
  - intros (_ & -> & Hx). left. exists 20%nat.
    rewrite printed_ticks. shape. discriminate.
  - intros (_ & -> & _). right. rewrite printed_app, printed_ticks. shape.
Qed.

(** ** The output of a complete run *)

(** C1. A run that is left to complete prints exactly the twenty lines
    [Iteration 0] ... [Iteration 19], in this order, then the one line
    [Counter finished.], and nothing else: the process does exit (after 84
    steps of the machine, for good), and a state in which it has exited has
    this output, whose events are the twenty ticks and the final print. *)
Theorem complete_run_output (w : world) :
  (forall n, (84 <= n)%nat -> run n (init w) = Ok (final w)) /\
  (forall n s, run n (init w) = Ok s -> exit_code s <> None ->
     out s = ticks 20 ++ [Print finished_line false] /\
     printed (out s) =
       map (fun i => iteration_line (Z.of_nat i)) (seq 0 20) ++ [finished_line] /\
     printed (out s) =
       ["Iteration 0"; "Iteration 1"; "Iteration 2"; "Iteration 3";
        "Iteration 4"; "Iteration 5"; "Iteration 6"; "Iteration 7";
        "Iteration 8"; "Iteration 9"; "Iteration 10"; "Iteration 11";
        "Iteration 12"; "Iteration 13"; "Iteration 14"; "Iteration 15";
        "Iteration 16"; "Iteration 17"; "Iteration 18"; "Iteration 19";
        "Counter finished."]%string /\
     length (printed (out s)) = 21%nat).
Proof.
  split; [apply run_from_84|].
  intros n s Hs Hx.
  destruct (Inv_exited s (Inv_reached w n s Hs) Hx) as (_ & _ & -> & _).
  repeat split; reflexivity.
Qed.

Lemma complete_run_output_witness :
  run 90 (init world0) = Ok (final world0) /\
  length (printed (out (final world0))) = 21%nat.
Proof.
  destruct (complete_run_output world0) as [Hrun Hout].
  split; [apply Hrun; lia|].
  apply (Hout 84%nat (final world0)); [reflexivity | discriminate].
Defined.

(** ** One iteration of the loop *)

(** The loop guard, at a reachable state: the counter is bound, and lies
    between 0 and 20. *)
Lemma Inv_guard (s : state) :
  Inv s -> pc s = L8 ->
  exists k, (k <= 20)%nat /\ counter s = Some (Z.of_nat k) /\ out s = ticks k.
Proof.
  unfold Inv. intros H Hpc. rewrite Hpc in H.
  destruct H as (k & Hk & Hc & Ho & _). now exists k.
Qed.

(** C3. An iteration, taken at the loop guard while [counter < 20], runs
    line 9, then line 10, then line 11 and is back at the guard: it prints
    the line [Iteration c] for the value [c] that the counter has at the
    guard (flushing it), then adds exactly 1 to the counter, then sleeps
    once, and changes nothing else. *)
Theorem iteration_steps (w : world) (n : nat) (s : state) (c : Z) :
  run n (init w) = Ok s -> pc s = L8 -> counter s = Some c -> c < 20 ->
  run 1 s = Ok (mkState L9 (Some c) (out s) (exit_code s) (env s)) /\
  run 2 s = Ok (mkState L10 (Some c)
                  (out s ++ [Print (iteration_line c) true])
                  (exit_code s) (env s)) /\
  run 3 s = Ok (mkState L11 (Some (c + 1))
                  (out s ++ [Print (iteration_line c) true])
                  (exit_code s) (env s)) /\
  run 4 s = Ok (mkState L8 (Some (c + 1))
                  (out s ++ [Print (iteration_line c) true; Sleep 1])
                  (exit_code s) (env s)).
Proof.
  intros _ Hpc Hc Hlt. destruct s as [l c' o x e]. simpl in *. subst l c'.
  apply Z.ltb_lt in Hlt.
  unfold step, load_counter, set_pc, set_counter, emit; simpl.
  rewrite Hlt; simpl.
  repeat split. now rewrite <- List.app_assoc.
Qed.

Lemma iteration_steps_witness :
  run 5 (init world0) = Ok (mkState L8 (Some 1) (ticks 1) None world0) /\
  run 4 (mkState L8 (Some 1) (ticks 1) None world0) =
  Ok (mkState L8 (Some 2)
        [Print "Iteration 0" true; Sleep 1; Print "Iteration 1" true; Sleep 1]
        None world0).
Proof.
  split; [reflexivity|].
  apply (iteration_steps world0 5 (mkState L8 (Some 1) (ticks 1) None world0) 1);
    [reflexivity | reflexivity | reflexivity | lia].
Defined.

(** ** Leaving the loop *)

(** C4. At a reachable evaluation of the guard the loop is left exactly when
    the counter is 20; the program then prints the line [Counter finished.],
    the 21st and last line of its output, and exits with status 0.  The
    guard is evaluated with the counter at 20 after 81 steps. *)
Theorem loop_exit_then_finish (w : world) (n : nat) (s : state) (c : Z) :
  run n (init w) = Ok s -> pc s = L8 -> counter s = Some c ->
  (step s = Ok (set_pc L13 s) <-> c = 20) /\
  (step s = Ok (set_pc L9 s) <-> c < 20) /\
  (c = 20 ->
   run 2 s = Ok (mkState Lend (Some 20)
                   (out s ++ [Print "Counter finished." false]) None (env s)) /\
   run 3 s = Ok (mkState Lend (Some 20)
                   (out s ++ [Print "Counter finished." false]) (Some 0) (env s)) /\
   printed (out s ++ [Print "Counter finished." false]) =
     iteration_lines 20 ++ ["Counter finished."%string]).
Proof.
  intros Hs Hpc Hc.
  destruct (Inv_guard s (Inv_reached w n s Hs) Hpc) as (k & Hk & Hc' & Ho).
  pose proof (Inv_reached w n s Hs) as HI. unfold Inv in HI. rewrite Hpc in HI.
  destruct HI as (k' & _ & _ & _ & Hx).
  rewrite Hc in Hc'. injection Hc' as ->.
  destruct s as [l c' o x e]. simpl in *. subst l c' o x.
  unfold step, load_counter, set_pc; simpl.
  destruct (Z.ltb_spec (Z.of_nat k) 20) as [Hlt|Hge].
  - split; [|split].
    + split; [discriminate | lia].
    + split; [lia | reflexivity].
    + lia.
  - assert (k = 20%nat) as -> by lia.
    split; [|split].
    + split; reflexivity.
    + split; [discriminate | lia].
    + intros _. split; [reflexivity|]. split; [reflexivity|].
      rewrite printed_app, printed_ticks. reflexivity.
Qed.

Lemma loop_exit_then_finish_witness :
  run 81 (init world0) = Ok (mkState L8 (Some 20) (ticks 20) None world0) /\
  run 3 (mkState L8 (Some 20) (ticks 20) None world0) =
    Ok (mkState Lend (Some 20) (ticks 20 ++ [Print "Counter finished." false])
          (Some 0) world0) /\
  last (printed (ticks 20 ++ [Print "Counter finished." false])) EmptyString =
    "Counter finished."%string.
Proof.
  split; [reflexivity|].
  destruct (loop_exit_then_finish world0 81
              (mkState L8 (Some 20) (ticks 20) None world0) 20
              eq_refl eq_refl eq_refl) as (_ & _ & H).
  destruct (H eq_refl) as (_ & H3 & Hp).
  split; [exact H3|].
  cbn [out] in Hp. rewrite Hp. apply last_last.
Defined.

(** ** Interrupted runs *)

Lemma finished_not_in_iteration_lines (k : nat) :
  ~ In finished_line (iteration_lines k).
Proof.
  intros H. apply in_iteration_lines in H. destruct H as (i & _ & H).
  symmetry in H. exact (iteration_line_not_finished _ H).
Qed.

Lemma late_iteration_not_in_lines (k : nat) (N : Z) :
  Z.of_nat k <= N -> ~ In (iteration_line N) (iteration_lines k).
Proof.
  intros HN H. apply in_iteration_lines in H. destruct H as (i & Hi & H).
  apply iteration_line_inj in H. lia.
Qed.

(** C5. Whatever the number of steps after which the process is stopped:
    if it has printed [k < 20] lines so far, these are the lines
    [Iteration 0] ... [Iteration (k-1)]; [Counter finished.] is not among
    them and neither is [Iteration N] for any [N >= k].  Put the other way
    round, when [Counter finished.] has been printed then all twenty
    iteration lines were printed before it. *)
Theorem interrupted_run_output (w : world) (n : nat) (s : state) :
  run n (init w) = Ok s ->
  ((length (printed (out s)) < 20)%nat ->
   printed (out s) = iteration_lines (length (printed (out s))) /\
   ~ In finished_line (printed (out s)) /\
   forall N, Z.of_nat (length (printed (out s))) <= N ->
             ~ In (iteration_line N) (printed (out s))) /\
  (In finished_line (printed (out s)) ->
   printed (out s) = iteration_lines 20 ++ [finished_line]).
Proof.
  intros Hs.
  destruct (Inv_printed s (Inv_reached w n s Hs))
    as [(k & Hk & Hp & _ & _) | (Hp & _)]; rewrite Hp.
  - rewrite length_iteration_lines. split.
    + intros _. split; [reflexivity|]. split.
      * apply finished_not_in_iteration_lines.
      * intros N HN. now apply late_iteration_not_in_lines.
    + intros H. now apply finished_not_in_iteration_lines in H.
  - split; [|reflexivity].
    rewrite length_app, length_iteration_lines. simpl. lia.
Qed.

Lemma interrupted_run_output_witness :
  let s := mkState L10 (Some 2) (ticks 2 ++ [Print "Iteration 2" true]) None world0 in
  run 11 (init world0) = Ok s /\
  printed (out s) = ["Iteration 0"; "Iteration 1"; "Iteration 2"]%string /\
  ~ In finished_line (printed (out s)) /\
  ~ In (iteration_line 3) (printed (out s)).
Proof.
  intros s. split; [reflexivity|].
  destruct (interrupted_run_output world0 11 s eq_refl) as [H _].
  destruct H as (_ & Hfin & Hlate); [simpl; lia|].
  split; [reflexivity|]. split; [exact Hfin|].
  apply Hlate. simpl. lia.
Defined.

(** Every number of printed lines below 20 is the output of some interrupted
    run. *)
Lemma interrupted_run_exists (w : world) (k : nat) :
  (k < 20)%nat ->
  exists n s, run n (init w) = Ok s /\ length (printed (out s)) = k.
Proof.
  intros Hk.
  assert (H : forall j, (j <= 20)%nat ->
            run (1 + 4 * j) (init w) =
            Ok (mkState L8 (Some (Z.of_nat j)) (ticks j) None w)).
  { induction j as [|j IH]; intros Hj; [reflexivity|].
    replace (1 + 4 * S j)%nat with ((1 + 4 * j) + 4)%nat by lia.
    rewrite run_add, IH by lia. simpl.
    unfold step, load_counter, set_pc, set_counter, emit; simpl.
    destruct (Z.ltb_spec (Z.of_nat j) 20); [|lia]. simpl.
    rewrite ticks_S, <- List.app_assoc. simpl.
    do 3 f_equal. lia. }
  exists (1 + 4 * k)%nat. eexists. split; [apply H; lia|].
  simpl. now rewrite printed_ticks, length_iteration_lines.
Qed.

(** ** Independence of the world *)

(** A statement neither reads nor changes the world: stepping commutes with
    replacing it. *)
Lemma step_with_world (w : world) (s : state) :
  step (with_world w s) = result_map (with_world w) (step s).
Proof.
  destruct s as [l c o x e].
  destruct l; unfold step, load_counter; simpl; try reflexivity;
    destruct c; reflexivity.
Qed.

Lemma run_with_world (w : world) (n : nat) (s : state) :
  run n (with_world w s) = result_map (with_world w) (run n s).
Proof.
  revert s. induction n as [|n IH]; intros s; simpl; [reflexivity|].
  rewrite step_with_world.
  destruct (step s) as [s'|e]; simpl; [apply IH | reflexivity].
Qed.

Lemma observable_with_world (w : world) (s : state) :
  observable (with_world w s) = observable s.
Proof. reflexivity. Qed.

(** The events of a run are only ever appended to. *)
Lemma step_out_grows (s s' : state) :
  step s = Ok s' -> exists t, out s' = out s ++ t.
Proof.
  destruct s as [l c o x e]. unfold step, load_counter; simpl.
  destruct l; simpl; try destruct c; simpl; intros [= <-]; simpl;
    try (now eexists); exists []; now rewrite List.app_nil_r.
Qed.

Lemma run_out_grows (n : nat) (s s' : state) :
  run n s = Ok s' -> exists t, out s' = out s ++ t.
Proof.
  revert s. induction n as [|n IH]; intros s; simpl.
  - intros [= <-]. exists []. now rewrite List.app_nil_r.
  - destruct (step s) as [s1|e] eqn:E; simpl; [|discriminate].
    intros H. destruct (step_out_grows s s1 E) as (t1 & H1).
    destruct (IH s1 H) as (t2 & H2).
    exists (t1 ++ t2). now rewrite H2, H1, List.app_assoc.
Qed.

(** C6. The output does not depend on anything the process could read.
    Started in any two worlds (arguments, environment, standard input), the
    process is after any number of steps in states that agree on everything
    an observer can tell, the events on standard output among it; two runs
    that have exited have printed the same lines; and of two runs stopped at
    different moments the events of the shorter are the beginning of the
    events of the longer. *)
Theorem output_independent_of_world (w1 w2 : world) :
  (forall n, result_map observable (run n (init w1)) =
             result_map observable (run n (init w2))) /\
  (forall n1 n2 s1 s2,
     run n1 (init w1) = Ok s1 -> run n2 (init w2) = Ok s2 ->
     exit_code s1 <> None -> exit_code s2 <> None ->
     out s1 = out s2 /\ printed (out s1) = printed (out s2)) /\
  (forall n m s1 s2,
     run n (init w1) = Ok s1 -> run (n + m) (init w2) = Ok s2 ->
     exists t, out s2 = out s1 ++ t).
Proof.
  assert (Hobs : forall n, result_map observable (run n (init w1)) =
                           result_map observable (run n (init w2))).
  { intros n. change (init w2) with (with_world w2 (init w1)).
    rewrite run_with_world. now destruct (run n (init w1)). }
  split; [exact Hobs|]. split.
  - intros n1 n2 s1 s2 H1 H2 Hx1 Hx2.
    destruct (Inv_exited s1 (Inv_reached w1 n1 s1 H1) Hx1) as (_ & _ & -> & _).
    destruct (Inv_exited s2 (Inv_reached w2 n2 s2 H2) Hx2) as (_ & _ & -> & _).
    now split.
  - intros n m s1 s2 H1 H2.
    rewrite run_add in H2.
    specialize (Hobs n). rewrite H1 in Hobs.
    destruct (run n (init w2)) as [s1'|e]; simpl in *; [|discriminate].
    injection Hobs as Hpc Hc Ho Hx.
    destruct (run_out_grows m s1' s2 H2) as (t & Ht).
    exists t. now rewrite Ho.
Qed.

Lemma output_independent_of_world_witness :
  let w := mkWorld ["simple_counter.py"; "--fast"]%string
                   [("LIMIT", "3")]%string "7"%string in
  result_map observable (run 40 (init world0)) =
  result_map observable (run 40 (init w)) /\
  printed (out (final world0)) = printed (out (final w)).
Proof.
  intros w.
  destruct (output_independent_of_world world0 w) as (Hobs & Hdone & _).
  split; [apply Hobs|].
  apply (Hdone 84%nat 90%nat (final world0) (final w));
    [reflexivity | reflexivity | discriminate | discriminate].
Defined.

(** ** Termination *)

Lemma trajectory_add (n m : nat) (s s' : state) :
  run n s = Ok s' ->
  trajectory (n + m) s = trajectory n s ++ tl (trajectory m s').
Proof.
  revert s. induction n as [|n IH]; intros s; simpl.
  - intros [= <-]. now destruct m.
  - destruct (step s) as [s1|e]; simpl; [|discriminate].
    intros H. now rewrite (IH s1 H).
Qed.

Lemma trajectory_final (w : world) (m : nat) (l : label) :
  l <> Lend -> filter (at_label l) (trajectory m (final w)) = [].
Proof.
  intros Hl. destruct l; try contradiction;
    (induction m as [|m IH]; [reflexivity | exact IH]).
Qed.

Lemma filter_tl_nil {A : Type} (f : A -> bool) (l : list A) :
  filter f l = [] -> filter f (tl l) = [].
Proof.
  destruct l as [|a l]; simpl; [easy|]. now destruct (f a).
Qed.

(** From step 82 on (the program is then at line 13 or beyond) the visits of
    a line of the loop are those of the first 82 steps. *)
Lemma visits_settled (w : world) (l : label) (n : nat) :
  l <> Lend -> l <> L13 -> (82 <= n)%nat ->
  filter (at_label l) (trajectory n (init w)) =
  filter (at_label l) (trajectory 82 (init w)).
Proof.
  intros Hend H13 Hn. destruct (Nat.le_gt_cases 84 n) as [H84|H84].
  - replace n with (84 + (n - 84))%nat by lia.
    rewrite (trajectory_add 84 (n - 84) (init w) (final w) (run_84_final w)).
    rewrite filter_app.
    rewrite (filter_tl_nil _ _ (trajectory_final w (n - 84) l Hend)).
    rewrite List.app_nil_r.
    destruct l; try (vm_compute; reflexivity); contradiction.
  - assert (n = 82 \/ n = 83)%nat as [-> | ->] by lia; [reflexivity|].
    destruct l; try (vm_compute; reflexivity); contradiction.
Qed.

(** A bounded universal statement over the first steps, by enumeration. *)
Lemma below_by_cases (P : nat -> bool) (b : nat) :
  forallb P (seq 0 b) = true -> forall n, (n < b)%nat -> P n = true.
Proof.
  intros H n Hn. rewrite forallb_forall in H. apply H, in_seq. lia.
Qed.

Lemma iterations_82 (w : world) : iterations 82 (init w) = 20%nat.
Proof. vm_compute. reflexivity. Qed.

Lemma guard_values_82 (w : world) :
  guard_values 82 (init w) = map (fun k => Some (Z.of_nat k)) (seq 0 21).
Proof. vm_compute. reflexivity. Qed.

(** C7. The program terminates: from the start it takes 84 steps to the
    exit (status 0) and not fewer, and then stays there.  On the way the
    loop body is entered exactly 20 times, never more at any moment, and
    the guard [counter < 20] is evaluated with the counter at 0, 1, ..., 20
    in turn. *)
Theorem program_terminates (w : world) :
  run 84 (init w) = Ok (final w) /\
  exit_code (final w) = Some 0 /\
  (forall n, (84 <= n)%nat -> run n (init w) = Ok (final w)) /\
  (forall n, (n < 84)%nat -> still_running w n = true) /\
  (forall n, (82 <= n)%nat -> iterations n (init w) = 20%nat) /\
  (forall n, (iterations n (init w) <= 20)%nat) /\
  (forall n, (82 <= n)%nat ->
     guard_values n (init w) = map (fun k => Some (Z.of_nat k)) (seq 0 21)).
Proof.
  assert (Hiter : forall n, (82 <= n)%nat -> iterations n (init w) = 20%nat).
  { intros n Hn. unfold iterations.
    rewrite (visits_settled w L9 n) by (discriminate || exact Hn).
    apply iterations_82. }
  split; [apply run_84_final|]. split; [reflexivity|].
  split; [apply run_from_84|].
  split; [apply (below_by_cases (still_running w)); vm_compute; reflexivity|].
  split; [exact Hiter|]. split.
  - intros n. destruct (Nat.le_gt_cases 82 n) as [Hn|Hn].
    + rewrite (Hiter n Hn). lia.
    + apply Nat.leb_le.
      apply (below_by_cases (at_most_20_iterations w) 82); [|exact Hn].
      vm_compute. reflexivity.
  - intros n Hn. unfold guard_values.
    rewrite (visits_settled w L8 n) by (discriminate || exact Hn).
    apply guard_values_82.
Qed.

Lemma program_terminates_witness :
  run 100 (init world0) = Ok (final world0) /\
  still_running world0 83 = true /\
  iterations 100 (init world0) = 20%nat.
Proof.
  destruct (program_terminates world0) as (_ & _ & Hrun & Hbefore & Hiter & _).
  split; [apply Hrun; lia|].
  split; [apply Hbefore; lia | apply Hiter; lia].
Defined.

(** ** No exception *)

Lemma harmless_ticks (k : nat) : Forall harmless (ticks k).
Proof.
  induction k as [|k IH]; [constructor|].
  rewrite ticks_S. apply Forall_app. split; [exact IH|].
  repeat constructor. simpl. lia.
Qed.

Lemma Inv_harmless (s : state) : Inv s -> Forall harmless (out s).
Proof.
  unfold Inv. destruct (pc s).
  - intros (_ & -> & _). constructor.
  - intros (k & _ & _ & -> & _). apply harmless_ticks.
  - intros (k & _ & _ & -> & _). apply harmless_ticks.
  - intros (k & _ & _ & -> & _). apply Forall_app.
    split; [apply harmless_ticks | repeat constructor].
  - intros (k & _ & _ & -> & _). apply Forall_app.
    split; [apply harmless_ticks | repeat constructor].
  - intros (_ & -> & _). apply harmless_ticks.
  - intros (_ & -> & _). apply Forall_app.
    split; [apply harmless_ticks | repeat constructor].
Qed.

(** C8. No statement of the program fails.  After any number of steps, in
    any world, the machine is in a state and not at an exception: the
    counter is bound whenever it is read and [time.sleep] gets a length it
    accepts.  The next statement succeeds too, and all the process has done
    to the outside is print lines and sleep. *)
Theorem no_exception (w : world) (n : nat) :
  exists s,
    run n (init w) = Ok s /\
    (forall e, run n (init w) <> Raise e) /\
    (exists s', step s = Ok s') /\
    Forall harmless (out s).
Proof.
  destruct (Inv_run w n) as (s & Hs & HI).
  exists s. split; [exact Hs|]. split; [|split].
  - intros e He. rewrite Hs in He. discriminate.
  - destruct (Inv_step s HI) as (s' & Hs' & _). now exists s'.
  - now apply Inv_harmless.
Qed.

(** The statements can fail in other states than the reachable ones: the
    guard raises when the counter is not bound. *)
Example guard_unbound_raises (w : world) :
  step (mkState L8 None [] None w) = Raise (NameError "counter").
Proof. reflexivity. Qed.

Example sleep_negative_raises :
  time_sleep (-1) = Raise (ValueError "sleep length must be non-negative").
Proof. reflexivity. Qed.

(** ** The delay of the last iteration *)

(** C10. Every one of the twenty iterations sleeps, the last one too: a
    complete run calls [time.sleep] exactly 20 times, each time for 1
    second, no run calls it more often, and the events of a complete run
    end with the print of [Iteration 19], the sleep of that iteration and
    only then the print of [Counter finished.]. *)
Theorem sleep_in_every_iteration (w : world) :
  run 84 (init w) = Ok (final w) /\
  sleep_calls (out (final w)) = 20%nat /\
  out (final w) =
    ticks 19 ++ [Print "Iteration 19" true; Sleep 1; Print "Counter finished." false] /\
  (forall k, (k < 20)%nat ->
     exists t u, out (final w) =
       t ++ [Print (iteration_line (Z.of_nat k)) true; Sleep 1] ++ u) /\
  (forall n s, run n (init w) = Ok s -> (sleep_calls (out s) <= 20)%nat) /\
  (forall n s secs, run n (init w) = Ok s -> In (Sleep secs) (out s) -> secs = 1).
Proof.
  split; [apply run_84_final|]. split; [reflexivity|]. split; [reflexivity|].
  split; [|split].
  - intros k Hk. exists (ticks k), (flat_map tick (seq (S k) (19 - k)) ++
                                   [Print finished_line false]).
    change (out (final w)) with (ticks 20 ++ [Print finished_line false]).
    unfold ticks.
    assert (E : seq 0 20 = seq 0 k ++ k :: seq (S k) (19 - k)).
    { replace 20%nat with (k + S (19 - k))%nat by lia.
      rewrite seq_app. reflexivity. }
    rewrite E, flat_map_app. simpl.
    now rewrite <- List.app_assoc.
  - intros n s Hs. pose proof (Inv_reached w n s Hs) as HI.
    unfold Inv in HI. destruct (pc s).
    + destruct HI as (_ & -> & _). simpl. lia.
    + destruct HI as (k & Hk & _ & -> & _). rewrite sleep_calls_ticks. lia.
    + destruct HI as (k & Hk & _ & -> & _). rewrite sleep_calls_ticks. lia.
    + destruct HI as (k & Hk & _ & -> & _).
      rewrite sleep_calls_app, sleep_calls_ticks. simpl. lia.
    + destruct HI as (k & Hk & _ & -> & _).
      rewrite sleep_calls_app, sleep_calls_ticks. simpl. lia.
    + destruct HI as (_ & -> & _). rewrite sleep_calls_ticks. lia.
    + destruct HI as (_ & -> & _).
      rewrite sleep_calls_app, sleep_calls_ticks. simpl. lia.
  - intros n s secs Hs Hin.
    destruct (run_out_grows (84 - n) s) with (s' := final w) as (t & Ht).
    { destruct (Nat.le_gt_cases n 84) as [Hn|Hn].
      - pose proof (run_add n (84 - n) (init w)) as H.
        replace (n + (84 - n))%nat with 84%nat in H by lia.
        rewrite run_84_final, Hs in H. symmetry. exact H.
      - replace (84 - n)%nat with O by lia. simpl.
        rewrite run_from_84 in Hs by lia. symmetry. exact Hs. }
    assert (Hin' : In (Sleep secs) (out (final w)))
      by (rewrite Ht; apply in_or_app; now left).
    change (out (final w)) with (ticks 20 ++ [Print finished_line false]) in Hin'.
    unfold ticks in Hin'.
    apply in_app_or in Hin'. destruct Hin' as [Hin'|[Hin'|[]]]; [|discriminate].
    apply in_flat_map in Hin'. destruct Hin' as (i & _ & [Hi|[Hi|[]]]);
      [discriminate | now injection Hi].
Qed.

Lemma sleep_in_every_iteration_witness :
  sleep_calls (out (final world0)) = 20%nat /\
  (exists t u, out (final world0) = t ++ [Print "Iteration 19" true; Sleep 1] ++ u) /\
  (sleep_calls [Print "Iteration 0" true; Sleep 1; Print "Iteration 1" true] <= 20)%nat.
Proof.
  destruct (sleep_in_every_iteration world0) as (_ & Hcount & _ & Heach & Hmax & _).
  split; [exact Hcount|]. split; [apply (Heach 19%nat); lia|].
  apply (Hmax 7%nat (mkState L10 (Some 1)
                       [Print "Iteration 0" true; Sleep 1; Print "Iteration 1" true]
                       None world0)).
  reflexivity.
Defined.

(** ** Flushing *)

Lemma in_ticks (e : event) (k : nat) :
  In e (ticks k) ->
  exists i, (i < k)%nat /\
            (e = Print (iteration_line (Z.of_nat i)) true \/ e = Sleep 1).
Proof.
  unfold ticks. intros H. apply in_flat_map in H.
  destruct H as (i & Hi & [H|[H|[]]]); apply in_seq in Hi;
    exists i; (split; [lia|]); [left | right]; now symmetry.
Qed.

(** A reachable state has printed iteration lines with [flush=True] and, at
    most, the final line without. *)
Lemma Inv_prints (s : state) (line : string) (flush : bool) :
  Inv s -> In (Print line flush) (out s) ->
  (flush = true /\ exists i, line = iteration_line (Z.of_nat i)) \/
  (flush = false /\ line = finished_line).
Proof.
  assert (Htick : forall k, In (Print line flush) (ticks k) ->
            flush = true /\ exists i, line = iteration_line (Z.of_nat i)).
  { intros k H. destruct (in_ticks _ _ H) as (i & _ & [[= Hl Hf]|[=]]).
    split; [exact Hf | now exists i]. }
  assert (Hlast : forall k i, In (Print line flush)
            (ticks k ++ [Print (iteration_line (Z.of_nat i)) true]) ->
            flush = true /\ exists i, line = iteration_line (Z.of_nat i)).
  { intros k i H. apply in_app_or in H. destruct H as [H|[[= Hl Hf]|[]]].
    - now apply (Htick k).
    - split; [now symmetry | now exists i]. }
  unfold Inv. destruct (pc s).
  - intros (_ & -> & _) [].
  - intros (k & _ & _ & -> & _) H. left. now apply (Htick k).
  - intros (k & _ & _ & -> & _) H. left. now apply (Htick k).
  - intros (k & _ & _ & -> & _) H. left. now apply (Hlast k k).
  - intros (k & _ & _ & -> & _) H. left. now apply (Hlast k k).
  - intros (_ & -> & _) H. left. now apply (Htick 20%nat).
  - intros (_ & -> & _) H. apply in_app_or in H.
    destruct H as [H|[[= Hl Hf]|[]]]; [left; now apply (Htick 20%nat) | now right].
Qed.

(** The iteration lines leave the process as they are printed, whatever the
    buffering of the stream. *)
Lemma stream_ticks (b : buffering) (k : nat) :
  fold_left (write b) (ticks k) (mkStream [] []) = mkStream (iteration_lines k) [].
Proof.
  induction k as [|k IH]; [reflexivity|].
  rewrite ticks_S, fold_left_app, IH, iteration_lines_S. reflexivity.
Qed.

(** C2, as the code has it.  Every [Iteration N] line is printed with
    [flush=True]; the [Counter finished.] line is printed without.  While
    the program is in the loop, and so at every sleep, each line printed so
    far has been delivered and none is held back, whatever the buffering of
    the stream.  The final line is delivered by its print where the stream
    is line buffered or writes through; where it is block buffered the line
    is held back between its print and the exit of the interpreter, the very
    next step, which delivers it: once the process has exited all 21 lines
    are delivered. *)
Theorem flush_of_each_line (w : world) (b : buffering) (n : nat) (s : state) :
  run n (init w) = Ok s ->
  (forall N flush, In (Print (iteration_line N) flush) (out s) -> flush = true) /\
  (forall flush, In (Print "Counter finished." flush) (out s) -> flush = false) /\
  (pc s <> Lend -> stdout_of b s = mkStream (printed (out s)) []) /\
  (exit_code s <> None ->
   stdout_of b s =
     mkStream
       ["Iteration 0"; "Iteration 1"; "Iteration 2"; "Iteration 3";
        "Iteration 4"; "Iteration 5"; "Iteration 6"; "Iteration 7";
        "Iteration 8"; "Iteration 9"; "Iteration 10"; "Iteration 11";
        "Iteration 12"; "Iteration 13"; "Iteration 14"; "Iteration 15";
        "Iteration 16"; "Iteration 17"; "Iteration 18"; "Iteration 19";
        "Counter finished."]%string
       []) /\
  (pc s = Lend -> exit_code s = None ->
   stdout_of b s =
     if line_buffering b || write_through b
     then mkStream (iteration_lines 20 ++ ["Counter finished."%string]) []
     else mkStream
            ["Iteration 0"; "Iteration 1"; "Iteration 2"; "Iteration 3";
             "Iteration 4"; "Iteration 5"; "Iteration 6"; "Iteration 7";
             "Iteration 8"; "Iteration 9"; "Iteration 10"; "Iteration 11";
             "Iteration 12"; "Iteration 13"; "Iteration 14"; "Iteration 15";
             "Iteration 16"; "Iteration 17"; "Iteration 18"; "Iteration 19"]%string
            ["Counter finished."%string]).
Proof.
  intros Hs. pose proof (Inv_reached w n s Hs) as HI.
  split; [|split].
  - intros N flush Hin.
    destruct (Inv_prints s _ _ HI Hin) as [[Hf _]|[_ Hl]]; [exact Hf|].
    now apply iteration_line_not_finished in Hl.
  - intros flush Hin.
    destruct (Inv_prints s _ _ HI Hin) as [[_ (i & Hl)]|[Hf _]]; [|exact Hf].
    symmetry in Hl. now apply iteration_line_not_finished in Hl.
  - destruct s as [l c o x e]. unfold Inv in HI. unfold stdout_of.
    cbn [pc counter out exit_code] in *.
    destruct l.
    + destruct HI as (_ & -> & ->). repeat split; try reflexivity; easy.
    + destruct HI as (k & _ & _ & -> & ->).
      rewrite stream_ticks, printed_ticks. repeat split; easy.
    + destruct HI as (k & _ & _ & -> & ->).
      rewrite stream_ticks, printed_ticks. repeat split; easy.
    + destruct HI as (k & _ & _ & -> & ->).
      rewrite fold_left_app, stream_ticks, printed_app, printed_ticks.
      repeat split; easy.
    + destruct HI as (k & _ & _ & -> & ->).
      rewrite fold_left_app, stream_ticks, printed_app, printed_ticks.
      repeat split; easy.
    + destruct HI as (_ & -> & ->).
      rewrite stream_ticks, printed_ticks. repeat split; easy.
    + destruct HI as (_ & -> & Hx).
      rewrite fold_left_app, stream_ticks.
      split; [easy|]. destruct Hx as [-> | ->]; (split; [|intros _]).
      * easy.
      * intros _. destruct b as [[|] [|]]; reflexivity.
      * intros _. destruct b as [[|] [|]]; reflexivity.
      * discriminate.
Qed.

Lemma flush_of_each_line_witness :
  let s := mkState Lend (Some 20) (ticks 20 ++ [Print "Counter finished." false])
             None world0 in
  run 83 (init world0) = Ok s /\
  stdout_of block_buffered s =
    mkStream (iteration_lines 20) ["Counter finished."%string] /\
  stdout_of terminal s =
    mkStream (iteration_lines 20 ++ ["Counter finished."%string]) [] /\
  stdout_of unbuffered s =
    mkStream (iteration_lines 20 ++ ["Counter finished."%string]) [] /\
  stdout_of block_buffered (final world0) =
    mkStream (iteration_lines 20 ++ ["Counter finished."%string]) [].
Proof.
  intros s.
  assert (H83 : run 83 (init world0) = Ok s) by (vm_compute; reflexivity).
  split; [exact H83|].
  destruct (flush_of_each_line world0 block_buffered 83 s H83) as (_ & _ & _ & _ & Hpipe).
  destruct (flush_of_each_line world0 terminal 83 s H83) as (_ & _ & _ & _ & Htty).
  destruct (flush_of_each_line world0 unbuffered 83 s H83) as (_ & _ & _ & _ & Hu).
  destruct (flush_of_each_line world0 block_buffered 84 (final world0)
              (run_84_final world0)) as (_ & _ & _ & Hexit & _).
  split; [exact (Hpipe eq_refl eq_refl)|].
  split; [exact (Htty eq_refl eq_refl)|].
  split; [exact (Hu eq_refl eq_refl)|].
  apply Hexit. discriminate.
Defined.

(** C2, as the claim has it, fails: the last print of the program does not
    flush, and on a block-buffered stream, what a child process gets for a
    pipe, its line is still in the buffer of the process when the print has
    returned. *)
Lemma final_line_not_flushed :
  ~ (forall n s, run n (init world0) = Ok s -> every_print_flushed (out s)) /\
  (exists s, run 83 (init world0) = Ok s /\
             In (Print "Counter finished." false) (out s) /\
             buffered (stdout_of block_buffered s) = ["Counter finished."%string]).
Proof.
  assert (H83 : run 83 (init world0) =
                Ok (mkState Lend (Some 20) (ticks 20 ++ [Print finished_line false])
                      None world0))
    by (vm_compute; reflexivity).
  assert (Hin : In (Print finished_line false)
                  (ticks 20 ++ [Print finished_line false]))
    by (apply in_or_app; right; now left).
  split.
  - intros H.
    specialize (H 83%nat _ H83 finished_line false Hin). discriminate.
  - eexists. split; [exact H83|]. split; [exact Hin|].
    vm_compute. reflexivity.
Qed.

(** * Further properties of the script *)

(** ** The counter and the output *)

Lemma slept_app (t u : list event) : slept (t ++ u) = slept t + slept u.
Proof.
  induction t as [|[line f|secs] t IH]; simpl; [reflexivity | exact IH | lia].
Qed.

Lemma slept_ticks (k : nat) : slept (ticks k) = Z.of_nat k.
Proof.
  induction k as [|k IH]; [reflexivity|].
  rewrite ticks_S, slept_app, IH. simpl. lia.
Qed.

(** X1. The loop invariant.  Before line 7 has run the counter is not bound
    and nothing is printed.  From then on the counter lies between 0 and 20
    and counts both the lines printed and the seconds of sleep asked for:
    their numbers equal the counter, except that between the print and the
    increment (and after the final print) one more line is printed, and
    between the increment and the sleep one second less has been slept. *)
Theorem counter_tracks_output (w : world) (n : nat) (s : state) :
  run n (init w) = Ok s ->
  (pc s = L7 -> counter s = None /\ out s = []) /\
  (pc s <> L7 ->
   exists c, counter s = Some c /\ 0 <= c <= 20 /\
     Z.of_nat (length (printed (out s))) =
       c + match pc s with L10 | Lend => 1 | _ => 0 end /\
     slept (out s) = c - match pc s with L11 => 1 | _ => 0 end /\
     Z.of_nat (sleep_calls (out s)) = slept (out s)).
Proof.
  intros Hs. pose proof (Inv_reached w n s Hs) as HI.
  unfold Inv in HI. destruct (pc s).
  - destruct HI as (Hc & Ho & _). split; [intros _; now split | now intros []].
  - destruct HI as (k & Hk & -> & -> & _). split; [discriminate | intros _].
    exists (Z.of_nat k).
    rewrite printed_ticks, length_iteration_lines, slept_ticks, sleep_calls_ticks.
    shape.
  - destruct HI as (k & Hk & -> & -> & _). split; [discriminate | intros _].
    exists (Z.of_nat k).
    rewrite printed_ticks, length_iteration_lines, slept_ticks, sleep_calls_ticks.
    shape.
  - destruct HI as (k & Hk & -> & -> & _). split; [discriminate | intros _].
    exists (Z.of_nat k).
    rewrite printed_app, length_app, printed_ticks, length_iteration_lines,
      slept_app, slept_ticks, sleep_calls_app, sleep_calls_ticks.
    simpl. shape.
  - destruct HI as (k & Hk & -> & -> & _). split; [discriminate | intros _].
    exists (Z.of_nat k + 1).
    rewrite printed_app, length_app, printed_ticks, length_iteration_lines,
      slept_app, slept_ticks, sleep_calls_app, sleep_calls_ticks.
    simpl. shape.
  - destruct HI as (-> & -> & _). split; [discriminate | intros _].
    exists 20.
    rewrite printed_ticks, length_iteration_lines, slept_ticks, sleep_calls_ticks.
    shape.
  - destruct HI as (-> & -> & _). split; [discriminate | intros _].
    exists 20.
    rewrite printed_app, length_app, printed_ticks, length_iteration_lines,
      slept_app, slept_ticks, sleep_calls_app, sleep_calls_ticks.
    simpl. shape.
Qed.

Lemma counter_tracks_output_witness :
  let s := mkState L11 (Some 3) (ticks 2 ++ [Print "Iteration 2" true]) None world0 in
  run 12 (init world0) = Ok s /\
  exists c, counter s = Some c /\ 0 <= c <= 20 /\
    Z.of_nat (length (printed (out s))) = c + 0 /\
    slept (out s) = c - 1 /\
    Z.of_nat (sleep_calls (out s)) = slept (out s).
Proof.
  intros s.
  assert (H12 : run 12 (init world0) = Ok s) by (vm_compute; reflexivity).
  split; [exact H12|].
  destruct (counter_tracks_output world0 12 s H12) as [_ H].
  apply H. discriminate.
Defined.

(** ** No line twice *)

Lemma iteration_lines_NoDup (k : nat) : NoDup (iteration_lines k).
Proof.
  induction k as [|k IH]; [constructor|].
  rewrite iteration_lines_S.
  apply NoDup_app; [exact IH | repeat constructor; intros [] |].
  intros line Hin [<-|[]]. revert Hin.
  apply late_iteration_not_in_lines. lia.
Qed.

(** X2. No line is printed twice: the lines of a run, however long it is
    left running, are pairwise different. *)
Theorem lines_distinct (w : world) (n : nat) (s : state) :
  run n (init w) = Ok s -> NoDup (printed (out s)).
Proof.
  intros Hs.
  destruct (Inv_printed s (Inv_reached w n s Hs))
    as [(k & _ & -> & _ & _) | (-> & _)].
  - apply iteration_lines_NoDup.
  - apply NoDup_app;
      [apply iteration_lines_NoDup | repeat constructor; intros [] |].
    intros line Hin [<-|[]]. now apply finished_not_in_iteration_lines in Hin.
Qed.

Lemma lines_distinct_witness :
  NoDup (printed (ticks 20 ++ [Print finished_line false])).
Proof.
  exact (lines_distinct world0 84 (final world0) (run_84_final world0)).
Defined.

(** ** Prints and sleeps take turns *)

Lemma alternates_ticks (k : nat) (t : list event) :
  alternates true (ticks k ++ t) = alternates true t.
Proof.
  revert t. induction k as [|k IH]; intros t; [reflexivity|].
  rewrite ticks_S, <- List.app_assoc, IH. reflexivity.
Qed.

(** X3. In the events of a run prints and sleeps strictly alternate,
    starting with a print: the program never prints two lines without a
    sleep between them and never sleeps twice without a print between. *)
Theorem events_alternate (w : world) (n : nat) (s : state) :
  run n (init w) = Ok s -> alternates true (out s) = true.
Proof.
  intros Hs. pose proof (Inv_reached w n s Hs) as HI.
  unfold Inv in HI. destruct (pc s).
  - destruct HI as (_ & -> & _). reflexivity.
  - destruct HI as (k & _ & _ & -> & _).
    rewrite <- (List.app_nil_r (ticks k)). now rewrite alternates_ticks.
  - destruct HI as (k & _ & _ & -> & _).
    rewrite <- (List.app_nil_r (ticks k)). now rewrite alternates_ticks.
  - destruct HI as (k & _ & _ & -> & _). now rewrite alternates_ticks.
  - destruct HI as (k & _ & _ & -> & _). now rewrite alternates_ticks.
  - destruct HI as (_ & -> & _).
    rewrite <- (List.app_nil_r (ticks 20)). now rewrite alternates_ticks.
  - destruct HI as (_ & -> & _). now rewrite alternates_ticks.
Qed.

Lemma events_alternate_witness :
  alternates true
    [Print "Iteration 0" true; Sleep 1; Print "Iteration 1" true] = true /\
  alternates true [Print "Iteration 0" true; Print "Iteration 1" true] = false.
Proof.
  split; [|reflexivity].
  apply (events_alternate world0 7
           (mkState L10 (Some 1)
              [Print "Iteration 0" true; Sleep 1; Print "Iteration 1" true]
              None world0)).
  vm_compute. reflexivity.
Defined.

(** ** What precedes a line *)

(** What a run has done so far is the beginning of what the complete run
    does. *)
Lemma out_extends_to_final (w : world) (n : nat) (s : state) :
  run n (init w) = Ok s -> exists rest, out (final w) = out s ++ rest.
Proof.
  intros Hs. apply (run_out_grows (84 - n) s (final w)).
  destruct (Nat.le_gt_cases n 84) as [Hn|Hn].
  - pose proof (run_add n (84 - n) (init w)) as H.
    replace (n + (84 - n))%nat with 84%nat in H by lia.
    rewrite run_84_final, Hs in H. symmetry. exact H.
  - replace (84 - n)%nat with O by lia. simpl.
    rewrite run_from_84 in Hs by lia. symmetry. exact Hs.
Qed.

Lemma print_cons_inj (l l' : string) (f f' : bool) (t t' : list event) :
  Print l f :: t = Print l' f' :: t' -> l = l' /\ f = f' /\ t = t'.
Proof. intros H. now inversion H. Qed.

(** Where the print of [Iteration N] is in a sequence of iterations: after
    the iterations before the [N]-th, and nowhere else. *)
Lemma find_iteration_print (k a : nat) (t u : list event) (N : Z) (f : bool) :
  flat_map tick (seq a k) ++ [Print finished_line false] =
    t ++ Print (iteration_line N) f :: u ->
  exists j, (j < k)%nat /\ N = Z.of_nat (a + j) /\
            t = flat_map tick (seq a j) /\ f = true.
Proof.
  revert a t. induction k as [|k IH]; intros a t H.
  - change (flat_map tick (seq a 0)) with (@nil event) in H. simpl app in H.
    destruct t as [|e [|e' t]]; simpl app in H.
    + apply print_cons_inj in H. destruct H as (Hl & _ & _). symmetry in Hl.
      now apply iteration_line_not_finished in Hl.
    + discriminate.
    + discriminate.
  - change (flat_map tick (seq a (S k)))
      with (Print (iteration_line (Z.of_nat a)) true :: Sleep 1 ::
            flat_map tick (seq (S a) k)) in H.
    destruct t as [|e1 [|e2 t]]; simpl app in H.
    + apply print_cons_inj in H. destruct H as (Hl & Hf & _).
      apply iteration_line_inj in Hl.
      exists O. split; [lia|].
      split; [rewrite Nat.add_0_r; now symmetry|].
      split; [reflexivity | now symmetry].
    + discriminate.
    + injection H as He1 He2 H.
      destruct (IH (S a) t H) as (j & Hj & HN & Ht & Hf).
      exists (S j). split; [lia|].
      split; [rewrite HN; f_equal; lia|].
      split; [|exact Hf].
      subst e1 e2 t. reflexivity.
Qed.

(** X4. When a run has printed the line [Iteration N], then what it did
    before that print is exactly [N] complete iterations: the lines
    [Iteration 0] ... [Iteration (N-1)], each followed by a sleep, that is
    [N] sleeps and [N] seconds of sleep asked for.  The line is printed
    with [flush=True], and [N] is below 20. *)
Theorem line_preceded_by_its_iterations
    (w : world) (n : nat) (s : state) (t u : list event) (N : Z) (f : bool) :
  run n (init w) = Ok s ->
  out s = t ++ Print (iteration_line N) f :: u ->
  exists k, (k < 20)%nat /\ N = Z.of_nat k /\ f = true /\
            t = ticks k /\
            printed t = iteration_lines k /\
            sleep_calls t = k /\
            slept t = N.
Proof.
  intros Hs Ho.
  destruct (out_extends_to_final w n s Hs) as (rest & Hrest).
  rewrite Ho, <- List.app_assoc in Hrest. simpl app in Hrest.
  change (out (final w))
    with (flat_map tick (seq 0 20) ++ [Print finished_line false]) in Hrest.
  destruct (find_iteration_print 20 0 t (u ++ rest) N f Hrest)
    as (k & Hk & HN & Ht & Hf).
  exists k. change (flat_map tick (seq 0 k)) with (ticks k) in Ht. subst t.
  rewrite printed_ticks, sleep_calls_ticks, slept_ticks.
  repeat split; auto.
Qed.

Lemma line_preceded_by_its_iterations_witness :
  exists k, (k < 20)%nat /\ 2 = Z.of_nat k /\ true = true /\
            [Print "Iteration 0" true; Sleep 1; Print "Iteration 1" true; Sleep 1]
              = ticks k /\
            printed [Print "Iteration 0" true; Sleep 1;
                     Print "Iteration 1" true; Sleep 1] = iteration_lines k /\
            sleep_calls [Print "Iteration 0" true; Sleep 1;
                         Print "Iteration 1" true; Sleep 1] = k /\
            slept [Print "Iteration 0" true; Sleep 1;
                   Print "Iteration 1" true; Sleep 1] = 2.
Proof.
  apply (line_preceded_by_its_iterations world0 11
           (mkState L10 (Some 2) (ticks 2 ++ [Print "Iteration 2" true]) None world0)
           [Print "Iteration 0" true; Sleep 1; Print "Iteration 1" true; Sleep 1]
           [] 2 true).
  - vm_compute. reflexivity.
  - reflexivity.
Defined.

(** ** The loop from any value of the counter *)

Lemma ticks_from_S (c : Z) (k : nat) :
  ticks_from c (S k) =
  ticks_from c k ++ [Print (iteration_line (c + Z.of_nat k)) true; Sleep 1].
Proof. unfold ticks_from. rewrite seq_S, flat_map_app. reflexivity. Qed.

(** [k] iterations, as long as the counter stays within the bound. *)
Lemma loop_iterations (w : world) (k : nat) (c : Z) (o : list event) :
  c + Z.of_nat k <= 20 ->
  run (4 * k) (at_guard c o w) =
  Ok (at_guard (c + Z.of_nat k) (o ++ ticks_from c k) w).
Proof.
  induction k as [|k IH]; intros Hk.
  - simpl. unfold at_guard. now rewrite Z.add_0_r, List.app_nil_r.
  - replace (4 * S k)%nat with (4 * k + 4)%nat by lia.
    rewrite run_add, IH by lia.
    unfold at_guard, bind, run, step, load_counter, set_pc, set_counter, emit.
    cbn [pc counter out exit_code env bind].
    destruct (Z.ltb_spec (c + Z.of_nat k) 20) as [_|Hge]; [|lia].
    cbn [pc counter out exit_code env bind].
    rewrite (time_sleep_nonneg 1) by lia. cbn [bind].
    rewrite ticks_from_S, <- !List.app_assoc. cbn [app].
    replace (c + Z.of_nat (S k)) with (c + Z.of_nat k + 1) by lia.
    reflexivity.
Qed.

(** X5. The loop of lines 8 to 11, entered with any counter [c >= 0]: it
    runs [20 - c] iterations (none when [c >= 20]), printing the lines
    [Iteration c] ... [Iteration 19], each followed by a sleep, after what
    was printed before; it leaves the counter at [max c 20], and the guard
    then fails and control goes to line 13. *)
Theorem loop_from_any_counter (w : world) (c : Z) (o : list event) :
  0 <= c ->
  run (4 * Z.to_nat (20 - c)) (at_guard c o w) =
    Ok (at_guard (Z.max c 20) (o ++ ticks_from c (Z.to_nat (20 - c))) w) /\
  step (at_guard (Z.max c 20) (o ++ ticks_from c (Z.to_nat (20 - c))) w) =
    Ok (mkState L13 (Some (Z.max c 20))
          (o ++ ticks_from c (Z.to_nat (20 - c))) None w) /\
  length (printed (ticks_from c (Z.to_nat (20 - c)))) = Z.to_nat (20 - c) /\
  (20 <= c -> ticks_from c (Z.to_nat (20 - c)) = []).
Proof.
  intros Hc. split; [|split; [|split]].
  - destruct (Z.le_gt_cases c 20) as [Hle|Hgt].
    + rewrite loop_iterations by lia.
      replace (c + Z.of_nat (Z.to_nat (20 - c))) with (Z.max c 20) by lia.
      reflexivity.
    + replace (Z.to_nat (20 - c)) with O by lia.
      replace (Z.max c 20) with c by lia.
      simpl. unfold at_guard. now rewrite List.app_nil_r.
  - unfold step, load_counter, at_guard, set_pc. cbn [pc counter bind].
    destruct (Z.ltb_spec (Z.max c 20) 20) as [Hlt|_]; [lia | reflexivity].
  - generalize (Z.to_nat (20 - c)). intros k.
    induction k as [|k IH]; [reflexivity|].
    rewrite ticks_from_S, printed_app, length_app, IH. simpl. lia.
  - intros H. replace (Z.to_nat (20 - c)) with O by lia. reflexivity.
Qed.

Lemma loop_from_any_counter_witness :
  run 8 (at_guard 18 [] world0) =
    Ok (at_guard 20 [Print "Iteration 18" true; Sleep 1;
                     Print "Iteration 19" true; Sleep 1] world0) /\
  run 0 (at_guard 25 [] world0) = Ok (at_guard 25 [] world0) /\
  step (at_guard 25 [] world0) = Ok (mkState L13 (Some 25) [] None world0).
Proof.
  destruct (loop_from_any_counter world0 18 []) as (H18 & _); [lia|].
  destruct (loop_from_any_counter world0 25 []) as (H25 & S25 & _); [lia|].
  split; [exact H18|]. split; [exact H25 | exact S25].
Defined.

(** ** One line per print *)

Lemma occurrences_app (c : ascii) (s t : string) :
  occurrences c (s ++ t) = (occurrences c s + occurrences c t)%nat.
Proof.
  induction s as [|a s IH]; simpl; [reflexivity|]. rewrite IH. lia.
Qed.

(** A numeral is made of digits. *)
Lemma no_newline_in_uint (d : Decimal.uint) :
  occurrences newline_char (NilEmpty.string_of_uint d) = O.
Proof. induction d; simpl; auto. Qed.

Lemma no_newline_in_py_str (z : Z) : occurrences newline_char (py_str z) = O.
Proof.
  unfold py_str. destruct (Z.to_int z) as [d|d]; simpl.
  - destruct d; try apply no_newline_in_uint; reflexivity.
  - destruct d; try apply no_newline_in_uint; reflexivity.
Qed.

Lemma no_newline_in_iteration_line (N : Z) :
  occurrences newline_char (iteration_line N) = O.
Proof.
  unfold iteration_line. rewrite occurrences_app, no_newline_in_py_str.
  reflexivity.
Qed.

(** The text of lines that hold no newline has one newline for each line. *)
Lemma newlines_of_text (ls : list string) :
  (forall line, In line ls -> occurrences newline_char line = O) ->
  occurrences newline_char
    (String.concat EmptyString (map (fun line => (line ++ newline)%string) ls)) =
  length ls.
Proof.
  induction ls as [|x xs IH]; intros H; [reflexivity|].
  assert (Hx : occurrences newline_char (x ++ newline) = 1%nat).
  { rewrite occurrences_app, (H x) by now left. reflexivity. }
  specialize (IH (fun line Hin => H line (or_intror Hin))).
  destruct xs as [|y ys].
  - exact Hx.
  - change (occurrences newline_char
              ((x ++ newline) ++ EmptyString ++
               String.concat EmptyString
                 (map (fun line => (line ++ newline)%string) (y :: ys))) =
            S (length (y :: ys))).
    rewrite occurrences_app, Hx, occurrences_app, IH. reflexivity.
Qed.

(** X6. Each print makes exactly one line of the stream: no printed line
    holds a newline character, so the text on standard output has as many
    newlines as lines were printed and a reader that splits at newlines
    sees the lines as they were printed.  This holds for [Iteration N]
    whatever the number [N] is. *)
Theorem one_line_per_print (w : world) (n : nat) (s : state) :
  run n (init w) = Ok s ->
  (forall line, In line (printed (out s)) -> occurrences newline_char line = O) /\
  occurrences newline_char (stdout_text (out s)) = length (printed (out s)) /\
  (forall N, occurrences newline_char (iteration_line N) = O).
Proof.
  intros Hs.
  assert (H : forall line, In line (printed (out s)) ->
                           occurrences newline_char line = O).
  { intros line Hin.
    destruct (Inv_printed s (Inv_reached w n s Hs))
      as [(k & _ & Hp & _ & _) | (Hp & _)]; rewrite Hp in Hin.
    - apply in_iteration_lines in Hin. destruct Hin as (i & _ & ->).
      apply no_newline_in_iteration_line.
    - apply in_app_or in Hin. destruct Hin as [Hin|[<-|[]]]; [|reflexivity].
      apply in_iteration_lines in Hin. destruct Hin as (i & _ & ->).
      apply no_newline_in_iteration_line. }
  split; [exact H|]. split; [|apply no_newline_in_iteration_line].
  unfold stdout_text. now apply newlines_of_text.
Qed.

Lemma one_line_per_print_witness :
  occurrences newline_char
    (stdout_text (ticks 20 ++ [Print finished_line false])) = 21%nat /\
  occurrences newline_char "Iteration 19" = O.
Proof.
  destruct (one_line_per_print world0 84 (final world0) (run_84_final world0))
    as (_ & Htext & Hline).
  split; [exact Htext | exact (Hline 19)].
Defined.
